(** * Verification of the embed-toggle and note-creation commands of [src/main.ts]

    The plugin registers two editor commands with logic of their own:
    - [toggle-embedding]: rewrites every checklist line that references a
      wiki link, according to the plugin's [embeddingEnabled] field, and then
      flips that field;
    - [create-file]: opens [CreatePageModal], which validates a file name and
      creates a note in the vault when Enter is pressed.

    JavaScript strings are sequences of UTF-16 code units; they are modelled
    as lists of [N].  The two regular expressions of the source are run by a
    small backtracking matcher that follows the ECMAScript semantics of the
    constructs they use (single characters, classes, [.], a greedy [?] and a
    greedy [*]). *)

From Stdlib Require Import NArith.
From stdpp Require Import base list gmap strings.

Local Open Scope N_scope.

(** ** Strings *)

(** A UTF-16 code unit. *)
Abbreviation char := N (only parsing).

(** A JavaScript string. *)
Abbreviation str := (list N) (only parsing).

(** A string literal of the source, written with ASCII characters. *)
Definition lit (s : string) : str :=
  map Ascii.N_of_ascii (String.list_ascii_of_string s).

(** The line feed character, ['\n']. *)
Definition LF : char := 10.

(** ECMAScript [LineTerminator]: LF, CR, LS and PS. *)
Definition is_line_terminator (c : char) : bool :=
  (c =? 10) || (c =? 13) || (c =? 8232) || (c =? 8233).

(** ECMAScript [WhiteSpace] and [LineTerminator] code units, the characters
    removed by [String.prototype.trim]. *)
Definition is_white_space (c : char) : bool :=
  (c =? 9) || (c =? 11) || (c =? 12) || (c =? 32) || (c =? 160)
  || (c =? 5760) || ((8192 <=? c) && (c <=? 8202))
  || (c =? 8239) || (c =? 8287) || (c =? 12288) || (c =? 65279)
  || is_line_terminator c.

Fixpoint trimStart (s : str) : str :=
  match s with
  | c :: s' => if is_white_space c then trimStart s' else s
  | [] => []
  end.

Definition trimEnd (s : str) : str := rev (trimStart (rev s)).

(** [String.prototype.trim]. *)
Definition trim (s : str) : str := trimEnd (trimStart s).

(** [s.split('\n')]: the pieces between line feeds; the empty string gives
    one empty piece. *)
Fixpoint split_lines (s : str) : list str :=
  match s with
  | [] => [[]]
  | c :: s' =>
      if c =? LF then [] :: split_lines s'
      else match split_lines s' with
           | l :: ls => (c :: l) :: ls
           | [] => [[c]]
           end
  end.

(** [lines.join('\n')]. *)
Fixpoint join_lines (ls : list str) : str :=
  match ls with
  | [] => []
  | [l] => l
  | l :: ls' => l ++ LF :: join_lines ls'
  end.

(** [a] and [b] on two consecutive lines. *)
Definition nl (a b : str) : str := a ++ LF :: b.

(** ** Regular expressions *)

(** A set of characters: one character, a class [[...]], or [.], which in a
    pattern without the [s] flag excludes the line terminators. *)
Inductive cset :=
| Chr (c : char)
| Cls (cs : list N)
| Dot.

Definition accepts (k : cset) (c : char) : bool :=
  match k with
  | Chr a => c =? a
  | Cls cs => existsb (N.eqb c) cs
  | Dot => negb (is_line_terminator c)
  end.

(** The terms the two patterns are built from: a set, a set under the greedy
    quantifier [?], and a set under the greedy quantifier [*]. *)
Inductive term :=
| One (k : cset)
| Opt (k : cset)
| Star (k : cset).

(** A pattern is a sequence of terms; [groups] lists the positions of the
    terms that are wrapped in capturing parentheses. *)
Record regex := Regex { terms : list term; groups : list nat }.

(** The outcome of matching at a fixed position: the text consumed by each
    term in turn, and the input left after the match. *)
Abbreviation mresult := (option (list (list N) * list N)) (only parsing).

(** Run the continuation [k] after a term has consumed [m]. *)
Definition emit (k : str -> mresult) (m : str) (s : str) : mresult :=
  match k s with
  | Some (caps, rest) => Some (m :: caps, rest)
  | None => None
  end.

Definition m_one (ks : cset) (k : str -> mresult) (s : str) : mresult :=
  match s with
  | x :: s' => if accepts ks x then emit k [x] s' else None
  | [] => None
  end.

(** Greedy [?]: take the character first, fall back to taking nothing. *)
Definition m_opt (ks : cset) (k : str -> mresult) (s : str) : mresult :=
  match s with
  | x :: s' =>
      if accepts ks x then
        match emit k [x] s' with
        | Some r => Some r
        | None => emit k [] s
        end
      else emit k [] s
  | [] => emit k [] s
  end.

(** Greedy [*]: take as many characters as possible, and give them back one
    at a time while the rest of the pattern fails.  [acc] is what this term
    has consumed so far. *)
Fixpoint m_star (ks : cset) (k : str -> mresult) (acc : str) (s : str) : mresult :=
  match s with
  | x :: s' =>
      if accepts ks x then
        match m_star ks k (acc ++ [x]) s' with
        | Some r => Some r
        | None => emit k acc s
        end
      else emit k acc s
  | [] => emit k acc s
  end.

(** Match a sequence of terms at the start of the input. *)
Fixpoint exec (r : list term) : str -> mresult :=
  match r with
  | [] => fun s => Some ([], s)
  | One ks :: r' => m_one ks (exec r')
  | Opt ks :: r' => m_opt ks (exec r')
  | Star ks :: r' => m_star ks (exec r') []
  end.

(** The leftmost match: the text before it, what each term consumed, and the
    text after it.  Every start position is tried in turn, the end of the
    input included. *)
Fixpoint search (r : list term) (s : str) : option (str * list str * str) :=
  match exec r s with
  | Some (caps, rest) => Some ([], caps, rest)
  | None =>
      match s with
      | [] => None
      | x :: s' =>
          match search r s' with
          | Some (pre, caps, rest) => Some (x :: pre, caps, rest)
          | None => None
          end
      end
  end.

(** [regex.test(s)], and the truth value of [s.match(regex)], for a regex
    whose [lastIndex] is 0. *)
Definition test (re : regex) (s : str) : bool :=
  match search (terms re) s with
  | Some _ => true
  | None => false
  end.

(** The arguments a replacement callback receives for the capture groups; a
    group that took no part in the match is passed as the empty string here
    ([undefined] in JavaScript; the callbacks of the source ignore it). *)
Definition group_args (re : regex) (caps : list str) : list str :=
  map (fun i => nth i caps []) (groups re).

(** [s.replace(regex, callback)] for a regex without the [g] flag: the
    leftmost match is replaced by what the callback returns. *)
Definition replace (re : regex) (f : str -> list str -> str) (s : str) : str :=
  match search (terms re) s with
  | Some (pre, caps, rest) => pre ++ f (concat caps) (group_args re caps) ++ rest
  | None => s
  end.

(** ** The toggle-embedding command *)

Definition c_dash : char := 45.
Definition c_space : char := 32.
Definition c_lbrack : char := 91.
Definition c_rbrack : char := 93.
Definition c_bang : char := 33.
Definition c_x : char := 120.

(** The terms of [- \[[x ]\] !?\[\[.*\]\]]. *)
Definition checklist_terms : list term :=
  [ One (Chr c_dash); One (Chr c_space); One (Chr c_lbrack);
    One (Cls [c_x; c_space]);
    One (Chr c_rbrack); One (Chr c_space);
    Opt (Chr c_bang);
    One (Chr c_lbrack); One (Chr c_lbrack);
    Star Dot;
    One (Chr c_rbrack); One (Chr c_rbrack) ].

(** [/- \[[x ]\] !?\[\[.*\]\]/], the pattern of the [match] call. *)
Definition match_regex : regex := Regex checklist_terms [].

(** The pattern of the [replace] call: the same terms, with capturing
    parentheses around the class, around the [!] and around the starred dot. *)
Definition replace_regex : regex := Regex checklist_terms [3; 6; 9]%nat.

(** The replacement callback:
    [(match, checked, exclamation, link) =>
       `- [${checked}] ${embeddingEnabled ? '!' : ''}[[${link}]]`]. *)
Definition replacer (embeddingEnabled : bool) (whole : str) (args : list str) : str :=
  let checked := nth 0 args [] in
  let link := nth 2 args [] in
  lit "- [" ++ checked ++ lit "] "
    ++ (if embeddingEnabled then lit "!" else lit "")
    ++ lit "[[" ++ link ++ lit "]]".

(** The body of the loop for one line. *)
Definition rewrite_line (embeddingEnabled : bool) (line : str) : str :=
  if test match_regex line
  then replace replace_regex (replacer embeddingEnabled) line
  else line.

(** [for (let i = 0; i < lines.length; i++) { ... lines[i] = ... }], with [n]
    iterations left. *)
Fixpoint for_lines (embeddingEnabled : bool) (n : nat) (i : nat)
    (lines : list str) : list str :=
  match n with
  | O => lines
  | S n' =>
      let lines' :=
        match lines !! i with
        | Some line =>
            if test match_regex line
            then <[i := replace replace_regex (replacer embeddingEnabled) line]> lines
            else lines
        | None => lines
        end in
      for_lines embeddingEnabled n' (S i) lines'
  end.

(** The state the command works on. *)
Record Plugin := { embeddingEnabled : bool }.
Record Editor := { value : str; selection : str }.
Record View := { viewType : str }.

(** The [editorCheckCallback] of the toggle command: the returned value
    ([None] for [undefined]), and the plugin and the editor afterwards. *)
Definition toggle_callback (checking : bool) (p : Plugin) (editor : Editor)
    (view : View) : option bool * Plugin * Editor :=
  if checking then
    (Some (bool_decide (viewType view = lit "markdown")), p, editor)
  else
    let lines := split_lines (value editor) in
    let lines := for_lines (embeddingEnabled p) (length lines) 0 lines in
    (None,
     {| embeddingEnabled := negb (embeddingEnabled p) |},
     {| value := join_lines lines; selection := selection editor |}).

(** What one run of the command does to the document text and the flag. *)
Definition toggleEmbeds (D : str) (E : bool) : str * bool :=
  let '(_, p, editor) :=
    toggle_callback false {| embeddingEnabled := E |}
      {| value := D; selection := [] |} {| viewType := lit "markdown" |} in
  (value editor, embeddingEnabled p).

(** One pass of the loop over a whole document, the flag held fixed. *)
Definition rewrite_doc (E : bool) (D : str) : str :=
  let lines := split_lines D in
  join_lines (for_lines E (length lines) 0 lines).

(** A command as passed to [addCommand]. *)
Record Command := {
  id : str;
  name : str;
  editorCheckCallback : bool -> Plugin -> Editor -> View -> option bool * Plugin * Editor
}.

Definition toggle_command : Command :=
  {| id := lit "toggle-embedding";
     name := lit "Toggle Embedding Notes";
     editorCheckCallback := toggle_callback |}.

(** ** The create-file command: [CreatePageModal] *)

(** The character class of the pattern in [isValidFileName]: slash,
    backslash, question mark, percent, star, colon, bar, double quote, and
    the two angle brackets.  The pattern carries the [g] flag. *)
Definition forbidden_chars : list N :=
  [47; 92; 63; 37; 42; 58; 124; 34; 60; 62].

Definition filename_regex : regex := Regex [One (Cls forbidden_chars)] [].

(** [isValidFileName]: the regex is built anew at each call, so [test]
    starts from the beginning of the name. *)
Definition isValidFileName (fileName : str) : bool :=
  negb (test filename_regex fileName).

(** The vault of the host, as far as the modal uses it: the files by path,
    and the calls made to [create]. *)
Record Vault := {
  files : gmap (list N) (list N);
  create_calls : list (list N * list N)
}.

(** [vault.getAbstractFileByPath(path)]: the entry at the path, [None] for
    [null]. *)
Definition getAbstractFileByPath (v : Vault) (path : str) : option str :=
  files v !! path.

(** [vault.create(path, data)]: a new file, unless the path is taken. *)
Definition vault_create (v : Vault) (path data : str) : Vault :=
  {| files := match files v !! path with
              | Some _ => files v
              | None => <[path := data]> (files v)
              end;
     create_calls := create_calls v ++ [(path, data)] |}.

(** The modal: the selected text it was built with, the text input, the
    error paragraph, and whether it is open. *)
Record Modal := {
  selectedText : str;
  input_value : str;
  input_borderColor : str;
  error_text : str;
  error_color : str;
  error_display : str;
  is_open : bool
}.

Definition showError (m : Modal) (message : str) : Modal :=
  {| selectedText := selectedText m;
     input_value := input_value m;
     input_borderColor := lit "red";
     error_text := message;
     error_color := lit "red";
     error_display := lit "block";
     is_open := is_open m |}.

Definition clearError (m : Modal) : Modal :=
  {| selectedText := selectedText m;
     input_value := input_value m;
     input_borderColor := lit "";
     error_text := error_text m;
     error_color := error_color m;
     error_display := lit "none";
     is_open := is_open m |}.

Definition close (m : Modal) : Modal :=
  {| selectedText := selectedText m;
     input_value := input_value m;
     input_borderColor := input_borderColor m;
     error_text := error_text m;
     error_color := error_color m;
     error_display := error_display m;
     is_open := false |}.

(** [onOpen], up to the registration of the listeners. *)
Definition onOpen (selected : str) : Modal :=
  let title := hd [] (split_lines selected) in
  let m := {| selectedText := selected;
              input_value := title;
              input_borderColor := lit "";
              error_text := lit "Invalid file name.";
              error_color := lit "";
              error_display := lit "none";
              is_open := true |} in
  if negb (isValidFileName (input_value m))
  then showError m (lit "Invalid file name.")
  else m.

(** ['Research/' + textInput.value.trim() + '.md']. *)
Definition candidate_path (m : Modal) : str :=
  lit "Research/" ++ trim (input_value m) ++ lit ".md".

(** The listener of the [input] event. *)
Definition on_input (m : Modal) (v : Vault) : Modal :=
  let fileName := candidate_path m in
  if negb (isValidFileName (input_value m)) then
    showError m (lit "Invalid file name.")
  else match getAbstractFileByPath v fileName with
       | Some _ => showError m (lit "File already exists.")
       | None => clearError m
       end.

(** The listener of the [keydown] event, for the key [key]: the modal and
    the vault afterwards, and whether [preventDefault] was called. *)
Definition on_keydown (key : str) (m : Modal) (v : Vault) : Modal * Vault * bool :=
  let fileName := candidate_path m in
  if bool_decide (key = lit "Enter") then
    if negb (isValidFileName (input_value m)) then
      (showError m (lit "Invalid file name."), v, true)
    else match getAbstractFileByPath v fileName with
         | Some _ => (showError m (lit "File already exists."), v, true)
         | None => (close m, vault_create v fileName (selectedText m), true)
         end
  else (m, v, false).

(** ** Vocabulary of the statements *)

(** What a term may consume. *)
Definition term_ok (t : term) (m : list N) : Prop :=
  match t with
  | One k => ∃ x, m = [x] ∧ accepts k x = true
  | Opt k => m = [] ∨ ∃ x, m = [x] ∧ accepts k x = true
  | Star k => Forall (λ x, accepts k x = true) m
  end.

(** The text up to and including the opening brackets of the link. *)
Definition header (c : N) (bang : list N) : list N :=
  lit "- [" ++ c :: lit "] " ++ bang ++ lit "[[".

(** What the terms before the starred dot consume on a header. *)
Definition header_caps (c : N) (bang : list N) : list (list N) :=
  [[c_dash]; [c_space]; [c_lbrack]; [c]; [c_rbrack]; [c_space]; bang;
   [c_lbrack]; [c_lbrack]].

(** The terms from the starred dot on. *)
Definition tail_terms : list term :=
  [Star Dot; One (Chr c_rbrack); One (Chr c_rbrack)].

(** The checked-state character is [x] or a space. *)
Definition ok_state (c : N) : Prop := c = c_x ∨ c = c_space.

(** What the optional [!] consumed: nothing, or the [!]. *)
Definition ok_bang (bang : list N) : Prop := bang = [] ∨ bang = [c_bang].

(** No character of [s] is a line terminator. *)
Definition no_terminator (s : list N) : Prop :=
  Forall (λ x, accepts Dot x = true) s.

(** The pattern matches at the start of [u]. *)
Definition match_at (u : list N) : Prop :=
  ∃ c bang a b, ok_state c ∧ ok_bang bang ∧ no_terminator a
    ∧ u = header c bang ++ a ++ lit "]]" ++ b.

(** The text the callback puts before the link brackets. *)
Definition bang_of (E : bool) : list N := if E then [c_bang] else [].

(** The leftmost match of a line, spelled out. *)
Definition leftmost (l pre : list N) (c : N) (bang link rest : list N) : Prop :=
  ok_state c ∧ ok_bang bang ∧ no_terminator link
  ∧ l = pre ++ header c bang ++ link ++ lit "]]" ++ rest
  ∧ search checklist_terms l
    = Some (pre, header_caps c bang ++ [link; [c_rbrack]; [c_rbrack]], rest).

(** The three-line document of the scenario in the specification. *)
Definition scenario_doc : list N :=
  nl (lit "- [ ] [[Alpha]]") (nl (lit "- [x] ![[Beta]]") (lit "- plain text")).

(** The value of [event.key] for the submit key. *)
Definition Enter : list N := lit "Enter".

(** A modal opened on a two-line selection, with [input] typed in. *)
Definition sample_modal (input : list N) : Modal :=
  {| selectedText := nl (lit "My Note") (lit "Body text");
     input_value := input;
     input_borderColor := lit "";
     error_text := lit "Invalid file name.";
     error_color := lit "";
     error_display := lit "none";
     is_open := true |}.

(** A vault without files, on which [create] was never called. *)
Definition empty_vault : Vault := {| files := ∅; create_calls := [] |}.

(** ** The rest of the plugin *)

(** The toggle command run [n] times in a row on a document and a flag. *)
Definition toggle_times (n : nat) (D : list N) (E : bool) : list N * bool :=
  Nat.iter n (λ st, toggleEmbeds st.1 st.2) (D, E).

(** The text without its [!] characters. *)
Definition without_bangs (s : list N) : list N :=
  List.filter (λ c, negb (c =? c_bang)) s.

(** The number of path separators, slash or backslash, in a path. *)
Definition separators (path : list N) : nat :=
  length (List.filter (λ c, (c =? 47) || (c =? 92)) path).

(** The [editorCheckCallback] of the [create-file] command: the returned
    value, the notices shown, and the modal opened, if any.  Opening the
    modal runs its [onOpen]. *)
Definition create_file_callback (checking : bool) (editor : Editor)
    : bool * list (list N) * option Modal :=
  let selectedText := selection editor in
  if (length selectedText =? 0)%nat then
    (false, if negb checking then [lit "No text selected."] else [], None)
  else
    (true, [], if negb checking then Some (onOpen selectedText) else None).

(** Settings objects: the properties by name.  The values are those of the
    host's data file, of some type [V] that holds the strings. *)
Definition mySetting : list N := lit "mySetting".

(** [DEFAULT_SETTINGS]. *)
Definition DEFAULT_SETTINGS {V : Type} (JString : list N → V) : gmap (list N) V :=
  {[ mySetting := JString (lit "default") ]}.

(** [Object.assign(target, ...sources)]: the properties of each source in
    turn are written over the target; a [null] source is skipped. *)
Definition object_assign {V : Type} (target : gmap (list N) V)
    (sources : list (option (gmap (list N) V))) : gmap (list N) V :=
  foldl (λ acc src, match src with Some o => o ∪ acc | None => acc end)
    target sources.

(** [loadSettings], given what [loadData] resolves to ([None] for [null]):
    the new value of the [settings] field. *)
Definition loadSettings {V : Type} (JString : list N → V)
    (data : option (gmap (list N) V)) : gmap (list N) V :=
  object_assign ∅ [Some (DEFAULT_SETTINGS JString); data].

(** [saveSettings]: what [saveData] stores. *)
Definition saveSettings {V : Type} (settings : gmap (list N) V)
    : option (gmap (list N) V) :=
  Some settings.

(** The [onChange] callback of the settings tab: the [settings] field and
    the stored data afterwards. *)
Definition onChange {V : Type} (JString : list N → V) (value : list N)
    (settings : gmap (list N) V) : gmap (list N) V * option (gmap (list N) V) :=
  let settings' := <[mySetting := JString value]> settings in
  (settings', saveSettings settings').

(** * Properties *)

(** ** Lines *)

Lemma split_lines_nonempty (s : list N) : split_lines s ≠ [].
Proof.
  destruct s as [|c s]; simpl; [done|].
  destruct (c =? LF); [done|]. by destruct (split_lines s).
Qed.

Lemma join_lines_cons (l : list N) (ls : list (list N)) :
  ls ≠ [] → join_lines (l :: ls) = l ++ LF :: join_lines ls.
Proof. by destruct ls. Qed.

Lemma join_split_lines (s : list N) : join_lines (split_lines s) = s.
Proof.
  induction s as [|c s IH]; simpl; [done|].
  destruct (N.eqb_spec c LF) as [->|Hc].
  - rewrite join_lines_cons by apply split_lines_nonempty. simpl. by rewrite IH.
  - pose proof (split_lines_nonempty s) as Hne.
    destruct (split_lines s) as [|l ls]; [done|].
    destruct ls as [|l' ls]; simpl in *; by rewrite <- IH.
Qed.

Lemma split_lines_app_LF (l s : list N) :
  LF ∉ l → split_lines (l ++ LF :: s) = l :: split_lines s.
Proof.
  induction l as [|c l IH]; intros Hl; simpl.
  - done.
  - apply not_elem_of_cons in Hl as [Hc Hl].
    destruct (N.eqb_spec c LF) as [->|_]; [done|].
    by rewrite IH.
Qed.

Lemma split_lines_single (l : list N) : LF ∉ l → split_lines l = [l].
Proof.
  induction l as [|c l IH]; intros Hl; simpl; [done|].
  apply not_elem_of_cons in Hl as [Hc Hl].
  destruct (N.eqb_spec c LF) as [->|_]; [done|].
  by rewrite IH.
Qed.

Lemma split_join_lines (ls : list (list N)) :
  ls ≠ [] → Forall (λ l, LF ∉ l) ls → split_lines (join_lines ls) = ls.
Proof.
  induction ls as [|l ls IH]; intros Hne Hall; [done|].
  apply Forall_cons in Hall as [Hl Hall].
  destruct ls as [|l' ls].
  - simpl. by apply split_lines_single.
  - rewrite join_lines_cons by done.
    rewrite split_lines_app_LF by done. f_equal. by apply IH.
Qed.

Lemma split_lines_no_LF (s : list N) : Forall (λ l, LF ∉ l) (split_lines s).
Proof.
  induction s as [|c s IH]; simpl.
  - repeat constructor. by apply not_elem_of_nil.
  - destruct (N.eqb_spec c LF) as [->|Hc].
    + constructor; [apply not_elem_of_nil | done].
    + pose proof (split_lines_nonempty s) as Hne.
      destruct (split_lines s) as [|l ls]; [done|].
      apply Forall_cons in IH as [Hl Hls].
      constructor; [|done]. by apply not_elem_of_cons.
Qed.

(** The loop visits every line once, in order: it maps the loop body over
    the lines. *)
Lemma for_lines_map_aux (E : bool) (todo done_ : list (list N)) :
  for_lines E (length todo) (length done_) (done_ ++ todo)
  = done_ ++ map (rewrite_line E) todo.
Proof.
  revert done_. induction todo as [|l todo IH]; intros done_; simpl; [done|].
  rewrite list_lookup_middle by done.
  assert (Hstep : ∀ l', for_lines E (length todo) (S (length done_)) (done_ ++ l' :: todo)
                        = done_ ++ l' :: map (rewrite_line E) todo).
  { intros l'. specialize (IH (done_ ++ [l'])).
    rewrite length_app, Nat.add_1_r, <- !app_assoc in IH. exact IH. }
  unfold rewrite_line. destruct (test match_regex l).
  - replace (length done_) with (length done_ + 0)%nat at 2 by lia.
    rewrite insert_app_r. simpl. apply Hstep.
  - apply Hstep.
Qed.

Lemma for_lines_map (E : bool) (lines : list (list N)) :
  for_lines E (length lines) 0 lines = map (rewrite_line E) lines.
Proof. apply (for_lines_map_aux E lines []). Qed.

Lemma rewrite_doc_map (E : bool) (D : list N) :
  rewrite_doc E D = join_lines (map (rewrite_line E) (split_lines D)).
Proof. unfold rewrite_doc. by rewrite for_lines_map. Qed.

Lemma toggleEmbeds_eq (D : list N) (E : bool) :
  toggleEmbeds D E = (rewrite_doc E D, negb E).
Proof. reflexivity. Qed.

(** ** The matcher *)

Lemma emit_Some k m s caps rest :
  emit k m s = Some (caps, rest) →
  ∃ caps', caps = m :: caps' ∧ k s = Some (caps', rest).
Proof.
  unfold emit. destruct (k s) as [[caps' rest']|]; [|done].
  intros [= <- <-]. eauto.
Qed.

Lemma emit_None k m s : emit k m s = None ↔ k s = None.
Proof. unfold emit. by destruct (k s) as [[??]|]. Qed.

Lemma m_star_Some ks k s : ∀ acc caps rest,
  m_star ks k acc s = Some (caps, rest) →
  ∃ m s2 caps', caps = (acc ++ m) :: caps' ∧ s = m ++ s2
    ∧ Forall (λ x, accepts ks x = true) m ∧ k s2 = Some (caps', rest).
Proof.
  induction s as [|x s IH]; intros acc caps rest; simpl.
  - intros (caps' & -> & Hk)%emit_Some.
    exists [], [], caps'. by rewrite app_nil_r.
  - assert (Hstop : emit k acc (x :: s) = Some (caps, rest) →
      ∃ m s2 caps', caps = (acc ++ m) :: caps' ∧ x :: s = m ++ s2
        ∧ Forall (λ x, accepts ks x = true) m ∧ k s2 = Some (caps', rest)).
    { intros (caps' & -> & Hk)%emit_Some.
      exists [], (x :: s), caps'. by rewrite app_nil_r. }
    destruct (accepts ks x) eqn:Hx; [|done].
    destruct (m_star ks k (acc ++ [x]) s) as [[caps0 rest0]|] eqn:Hrec; [|done].
    intros [= <- <-].
    destruct (IH _ _ _ Hrec) as (m & s2 & caps' & -> & -> & Hm & Hk).
    exists (x :: m), s2, caps'. rewrite <- app_assoc. by repeat split; [constructor|].
Qed.

(** A match consumes a prefix of the input, term by term. *)
Lemma exec_sound r : ∀ s caps rest,
  exec r s = Some (caps, rest) →
  s = concat caps ++ rest ∧ Forall2 term_ok r caps.
Proof.
  induction r as [|t r IH]; intros s caps rest; simpl.
  - intros [= <- <-]. by split; [|constructor].
  - destruct t as [ks|ks|ks].
    + destruct s as [|x s]; simpl; [done|].
      destruct (accepts ks x) eqn:Hx; [|done].
      intros (caps' & -> & Hk)%emit_Some.
      destruct (IH _ _ _ Hk) as [-> Hall].
      split; [done|]. constructor; [|done]. simpl; eauto.
    + assert (Hskip : emit (exec r) [] s = Some (caps, rest) →
        s = concat caps ++ rest ∧ Forall2 term_ok (Opt ks :: r) caps).
      { intros (caps' & -> & Hk)%emit_Some.
        destruct (IH _ _ _ Hk) as [-> Hall].
        split; [done|]. constructor; [|done]. by left. }
      destruct s as [|x s]; simpl; [done|].
      destruct (accepts ks x) eqn:Hx; [|done].
      destruct (emit (exec r) [x] s) as [[caps0 rest0]|] eqn:Htake; [|done].
      intros [= <- <-].
      apply emit_Some in Htake as (caps' & -> & Hk).
      destruct (IH _ _ _ Hk) as [-> Hall].
      split; [done|]. constructor; [|done]. right; eauto.
    + intros (m & s2 & caps' & -> & -> & Hm & Hk)%m_star_Some.
      destruct (IH _ _ _ Hk) as [-> Hall].
      split; [simpl; by rewrite <- app_assoc|]. by constructor.
Qed.

Lemma exec_rest_suffix r s caps rest :
  exec r s = Some (caps, rest) → s = concat caps ++ rest.
Proof. by intros [? _]%exec_sound. Qed.

(** [search] returns the first position at which [exec] succeeds. *)
Lemma search_Some r s : ∀ pre caps rest,
  search r s = Some (pre, caps, rest) →
  ∃ m, s = pre ++ m ∧ exec r m = Some (caps, rest)
    ∧ ∀ p1 p2, pre = p1 ++ p2 → p2 ≠ [] → exec r (p2 ++ m) = None.
Proof.
  induction s as [|x s IH]; intros pre caps rest; simpl.
  - destruct (exec r []) as [[caps0 rest0]|] eqn:He; [|done].
    intros [= <- <- <-]. exists []. repeat split; [done|].
    intros p1 p2 Hp. by destruct p1, p2.
  - destruct (exec r (x :: s)) as [[caps0 rest0]|] eqn:He.
    + intros [= <- <- <-]. exists (x :: s). repeat split; [done|].
      intros p1 p2 Hp. by destruct p1, p2.
    + destruct (search r s) as [[[pre0 caps0] rest0]|] eqn:Hs; [|done].
      intros [= <- <- <-].
      destruct (IH _ _ _ eq_refl) as (m & -> & Hm & Hbefore).
      exists m. repeat split; [done|].
      intros p1 p2 Hp Hne. destruct p1 as [|y p1]; simpl in Hp.
      * by subst p2.
      * injection Hp as -> ->. by eapply Hbefore.
Qed.

Lemma search_intro r pre : ∀ m caps rest,
  exec r m = Some (caps, rest) →
  (∀ p1 p2, pre = p1 ++ p2 → p2 ≠ [] → exec r (p2 ++ m) = None) →
  search r (pre ++ m) = Some (pre, caps, rest).
Proof.
  induction pre as [|x pre IH]; intros m caps rest Hm Hbefore; simpl.
  - destruct m; simpl; by rewrite Hm.
  - pose proof (Hbefore [] (x :: pre) eq_refl ltac:(done)) as H0.
    simpl in H0. rewrite H0.
    rewrite (IH m caps rest); [done|done|].
    intros p1 p2 -> Hne. by apply (Hbefore (x :: p1) p2).
Qed.

Lemma search_None r s :
  search r s = None ↔ ∀ p1 p2, s = p1 ++ p2 → exec r p2 = None.
Proof.
  induction s as [|x s IH]; simpl.
  - destruct (exec r []) as [[caps rest]|] eqn:He.
    + split; [done|]. intros H. by rewrite (H [] []) in He.
    + split; [|done]. intros _ p1 p2 Hp. by destruct p1, p2.
  - destruct (exec r (x :: s)) as [[caps rest]|] eqn:He.
    + split; [done|]. intros H. by rewrite (H [] (x :: s)) in He.
    + destruct (search r s) as [[[pre caps] rest]|] eqn:Hs.
      * split; [done|]. intros H.
        assert (Some (pre, caps, rest) = None) as Habs; [|done].
        apply IH. intros p1 p2 ->.
        by apply (H (x :: p1) p2).
      * split; [|done]. intros _ p1 p2 Hp.
        destruct p1 as [|y p1]; simpl in Hp; [by subst p2|].
        injection Hp as -> ->. by eapply IH.
Qed.

(** ** The checklist pattern *)

Lemma exec_header c bang t :
  ok_state c → ok_bang bang →
  exec checklist_terms (header c bang ++ t)
  = match exec tail_terms t with
    | Some (caps2, rest) => Some (header_caps c bang ++ caps2, rest)
    | None => None
    end.
Proof.
  intros [-> | ->] [-> | ->]; cbv -[m_star];
    by destruct (m_star _ _ _ t) as [[??]|].
Qed.

Lemma header_unfold c bang :
  header c bang
  = c_dash :: c_space :: c_lbrack :: c :: c_rbrack :: c_space :: bang
      ++ [c_lbrack; c_lbrack].
Proof. reflexivity. Qed.

Lemma header_app c bang t :
  header c bang ++ t
  = lit "- [" ++ [c] ++ lit "] " ++ bang ++ lit "[[" ++ t.
Proof.
  unfold header. rewrite <- app_assoc. f_equal. cbn [app]. f_equal.
  by rewrite <- !app_assoc.
Qed.

Lemma concat_header_caps c bang : concat (header_caps c bang) = header c bang.
Proof. reflexivity. Qed.

Lemma accepts_Chr a x : accepts (Chr a) x = true → x = a.
Proof. simpl. by intros ?%N.eqb_eq. Qed.

Lemma term_ok_Chr a m : term_ok (One (Chr a)) m → m = [a].
Proof. by intros (x & -> & ->%accepts_Chr). Qed.

(** A match at the start of [s] reads a header, a link without line
    terminators, and the closing brackets. *)
Lemma exec_checklist_Some s caps rest :
  exec checklist_terms s = Some (caps, rest) →
  ∃ c bang link, ok_state c ∧ ok_bang bang ∧ no_terminator link
    ∧ caps = header_caps c bang ++ [link; [c_rbrack]; [c_rbrack]]
    ∧ s = header c bang ++ link ++ lit "]]" ++ rest.
Proof.
  intros [-> Hall]%exec_sound. unfold checklist_terms in Hall.
  repeat match goal with
  | H : Forall2 _ (_ :: _) _ |- _ =>
      apply Forall2_cons_inv_l in H as (? & ? & ? & H & ->)
  | H : Forall2 _ [] _ |- _ => apply Forall2_nil_inv_l in H as ->
  | H : term_ok (One (Chr _)) _ |- _ => apply term_ok_Chr in H as ->
  end.
  match goal with
  | H : term_ok (One (Cls _)) ?m |- _ => destruct H as (c & -> & Hc)
  end.
  match goal with
  | H : term_ok (Opt _) ?m |- _ => rename H into Hbang, m into bang
  end.
  match goal with
  | H : term_ok (Star _) ?m |- _ => rename H into Hlink, m into link
  end.
  exists c, bang, link. repeat split.
  - simpl in Hc. rewrite !orb_true_iff in Hc.
    destruct Hc as [?%N.eqb_eq|[?%N.eqb_eq|?]]; [by left|by right|done].
  - destruct Hbang as [->|(x & -> & ->%accepts_Chr)]; [by left|by right].
  - exact Hlink.
  - rewrite header_unfold. change (lit "]]") with [c_rbrack; c_rbrack].
    simpl. rewrite <- !app_assoc. simpl. rewrite <- !app_assoc. reflexivity.
Qed.

Lemma star_dot_complete k a b : ∀ acc,
  no_terminator a → (∀ acc', is_Some (emit k acc' b)) →
  is_Some (m_star Dot k acc (a ++ b)).
Proof.
  induction a as [|x a IH]; intros acc Ha Hk.
  - cbn [app]. destruct b as [|y b]; cbn [m_star]; [apply Hk|].
    destruct (accepts Dot y); [|apply Hk].
    destruct (m_star Dot k (acc ++ [y]) b); [done|apply Hk].
  - apply Forall_cons in Ha as [Hx Ha]. cbn [app m_star]. rewrite Hx.
    destruct (IH (acc ++ [x]) Ha Hk) as [r ->]. done.
Qed.

Lemma exec_tail_complete a b :
  no_terminator a → is_Some (exec tail_terms (a ++ lit "]]" ++ b)).
Proof.
  intros Ha. apply star_dot_complete; [done|]. intros acc'. cbv. eauto.
Qed.

Lemma exec_checklist_is_Some u :
  is_Some (exec checklist_terms u) ↔ match_at u.
Proof.
  split.
  - intros [[caps rest] H].
    apply exec_checklist_Some in H as (c & bang & link & ? & ? & ? & _ & ->).
    by exists c, bang, link, rest.
  - intros (c & bang & a & b & Hc & Hbang & Ha & ->).
    rewrite exec_header by done.
    destruct (exec_tail_complete a b Ha) as [[caps2 rest] ->]. done.
Qed.

Lemma exec_checklist_None u :
  exec checklist_terms u = None ↔ ¬ match_at u.
Proof.
  rewrite <- exec_checklist_is_Some, eq_None_not_Some. done.
Qed.

(** *** Changing the [!] of the leftmost match does not move the match *)

Lemma header_no_terminator c bang :
  ok_state c → ok_bang bang → no_terminator (header c bang).
Proof.
  intros [-> | ->] [-> | ->]; unfold no_terminator;
    repeat (apply Forall_cons; split; [reflexivity|]); apply Forall_nil_2.
Qed.

(** A header has its only dash in front. *)
Lemma header_dash_first c bang p l :
  ok_state c → ok_bang bang → p ≠ [] → header c bang ≠ p ++ c_dash :: l.
Proof.
  intros Hc Hb Hp Heq.
  assert (Hin : c_dash ∈ tail (header c bang)).
  { rewrite Heq. destruct p as [|x p]; [done|]. simpl.
    apply elem_of_app. right. apply elem_of_cons. by left. }
  destruct Hc as [-> | ->], Hb as [-> | ->]; vm_compute in Hin;
    repeat (apply elem_of_cons in Hin as [Hin | Hin]; [done|]);
    by apply elem_of_nil in Hin.
Qed.

Lemma header_starts_with_dash c bang :
  ∃ h, header c bang = c_dash :: h.
Proof. rewrite header_unfold. eauto. Qed.

Lemma match_at_header_change p c bang bang' link rest :
  p ≠ [] → ok_state c → ok_bang bang → ok_bang bang' → no_terminator link →
  match_at (p ++ header c bang' ++ link ++ lit "]]" ++ rest) →
  match_at (p ++ header c bang ++ link ++ lit "]]" ++ rest).
Proof.
  intros Hp Hc Hb Hb' Hlink (c2 & bang2 & a & b & Hc2 & Hb2 & Ha & Heq).
  destruct (header_starts_with_dash c bang') as [h' Hh'].
  assert (Hprefix : ∃ q, p = header c2 bang2 ++ q
            ∧ a ++ lit "]]" ++ b = q ++ header c bang' ++ link ++ lit "]]" ++ rest).
  { apply app_eq_app in Heq as (l & [[-> Hl] | [Hl Hr]]).
    - by exists l.
    - destruct l as [|y l].
      + exists []. rewrite app_nil_r in Hl. rewrite app_nil_l in Hr.
        by rewrite app_nil_r, app_nil_l.
      + exfalso. rewrite Hh' in Hr. injection Hr as <- _.
        by eapply header_dash_first. }
  destruct Hprefix as (q & -> & Htail).
  assert (Hcases : no_terminator q
            ∨ ∃ l, q = a ++ lit "]]" ++ l).
  { apply app_eq_app in Htail as (l & [[-> _] | [-> Hr]]).
    - left. by apply Forall_app in Ha as [? _].
    - destruct l as [|z1 [|z2 l]].
      + left. by rewrite app_nil_r.
      + exfalso. rewrite Hh' in Hr. by injection Hr.
      + right. exists l. by injection Hr as <- <- _. }
  destruct Hcases as [Hq | (l & ->)].
  - exists c2, bang2, (q ++ header c bang ++ link), rest.
    repeat split; [done|done| |by rewrite <- !app_assoc].
    apply Forall_app; split; [done|].
    apply Forall_app; split; [by apply header_no_terminator|done].
  - exists c2, bang2, a, (l ++ header c bang ++ link ++ lit "]]" ++ rest).
    repeat split; [done|done|done|]. by rewrite <- !app_assoc.
Qed.

(** ** The rewrite of one line *)

Lemma ok_bang_of E : ok_bang (bang_of E).
Proof. destruct E; [by right | by left]. Qed.

Lemma search_checklist_Some l pre caps rest :
  search checklist_terms l = Some (pre, caps, rest) →
  ∃ c bang link, caps = header_caps c bang ++ [link; [c_rbrack]; [c_rbrack]]
    ∧ leftmost l pre c bang link rest.
Proof.
  intros Hs. destruct (search_Some _ _ _ _ _ Hs) as (m & -> & Hm & _).
  apply exec_checklist_Some in Hm as (c & bang & link & ? & ? & ? & -> & ->).
  exists c, bang, link. by repeat split.
Qed.

Lemma test_match_regex l :
  test match_regex l = true →
  ∃ pre c bang link rest, leftmost l pre c bang link rest.
Proof.
  unfold test, match_regex; simpl.
  destruct (search checklist_terms l) as [[[pre caps] rest]|] eqn:Hs; [|done].
  intros _. apply search_checklist_Some in Hs as (c & bang & link & _ & H).
  by exists pre, c, bang, link, rest.
Qed.

Lemma leftmost_test l pre c bang link rest :
  leftmost l pre c bang link rest → test match_regex l = true.
Proof. intros (_ & _ & _ & _ & Hs). unfold test, match_regex; simpl. by rewrite Hs. Qed.

Lemma replacer_header E c bang link whole :
  replacer E whole [[c]; bang; link]
  = header c (bang_of E) ++ link ++ lit "]]".
Proof.
  unfold replacer, header, bang_of. simpl nth.
  destruct E; by rewrite <- ?app_assoc.
Qed.

Lemma leftmost_rewrite E l pre c bang link rest :
  leftmost l pre c bang link rest →
  rewrite_line E l = pre ++ header c (bang_of E) ++ link ++ lit "]]" ++ rest.
Proof.
  intros H. unfold rewrite_line. rewrite (leftmost_test _ _ _ _ _ _ H).
  destruct H as (_ & _ & _ & _ & Hs).
  unfold replace, replace_regex, group_args; simpl terms; simpl groups.
  rewrite Hs. cbn [map nth header_caps app].
  rewrite replacer_header. by rewrite <- !app_assoc.
Qed.

(** Replacing the [!] of the leftmost match leaves it the leftmost match,
    with the same state and the same link. *)
Lemma leftmost_header_change l pre c bang bang' link rest :
  ok_bang bang' →
  leftmost l pre c bang link rest →
  leftmost (pre ++ header c bang' ++ link ++ lit "]]" ++ rest)
    pre c bang' link rest.
Proof.
  intros Hb' (Hc & Hb & Hlink & -> & Hs).
  repeat split; [done..|].
  apply search_Some in Hs as (m & Hm & Hexec & Hbefore).
  apply app_inv_head in Hm as <-.
  apply search_intro.
  - rewrite exec_header in Hexec by done. rewrite exec_header by done.
    destruct (exec tail_terms (link ++ lit "]]" ++ rest))
      as [[caps2 rest2]|]; [|done].
    by injection Hexec as -> ->.
  - intros p1 p2 Hp Hne. apply exec_checklist_None.
    intros Hmatch. specialize (Hbefore p1 p2 Hp Hne).
    apply exec_checklist_None in Hbefore. apply Hbefore.
    by apply (match_at_header_change p2 c bang bang').
Qed.

(** A pass with flag [E'] over a line already rewritten with flag [E] gives
    what a pass with [E'] gives on the line itself. *)
Lemma rewrite_line_twice E' E l :
  rewrite_line E' (rewrite_line E l) = rewrite_line E' l.
Proof.
  destruct (test match_regex l) eqn:Ht.
  - apply test_match_regex in Ht as (pre & c & bang & link & rest & H).
    rewrite (leftmost_rewrite E _ _ _ _ _ _ H).
    rewrite (leftmost_rewrite E' _ _ _ _ _ _ H).
    apply (leftmost_rewrite E' _ pre c (bang_of E) link rest).
    by apply (leftmost_header_change l pre c bang); [apply ok_bang_of|].
  - unfold rewrite_line at 2. by rewrite Ht.
Qed.

Lemma rewrite_line_no_match E l :
  test match_regex l = false → rewrite_line E l = l.
Proof. intros Ht. unfold rewrite_line. by rewrite Ht. Qed.

(** ** The rewrite of a document *)

Lemma no_terminator_no_LF s : no_terminator s → LF ∉ s.
Proof.
  intros Hs Hin. unfold no_terminator in Hs. rewrite Forall_forall in Hs.
  by specialize (Hs _ Hin).
Qed.

(** The callback brings no line feed into a line. *)
Lemma rewrite_line_no_LF E l : LF ∉ l → LF ∉ rewrite_line E l.
Proof.
  intros Hl. destruct (test match_regex l) eqn:Ht.
  - apply test_match_regex in Ht as (pre & c & bang & link & rest & H).
    rewrite (leftmost_rewrite E _ _ _ _ _ _ H).
    destruct H as (Hc & _ & _ & -> & _).
    rewrite !not_elem_of_app in Hl. destruct Hl as (? & _ & ? & ? & ?).
    rewrite !not_elem_of_app. repeat split; [done| |done..].
    apply no_terminator_no_LF, header_no_terminator; [done|apply ok_bang_of].
  - by rewrite rewrite_line_no_match.
Qed.

Lemma split_rewrite_doc E D :
  split_lines (rewrite_doc E D) = map (rewrite_line E) (split_lines D).
Proof.
  rewrite rewrite_doc_map. apply split_join_lines.
  - pose proof (split_lines_nonempty D). by destruct (split_lines D).
  - apply Forall_map. eapply Forall_impl; [apply split_lines_no_LF|].
    intros l Hl. by apply rewrite_line_no_LF.
Qed.

Lemma rewrite_doc_twice E' E D :
  rewrite_doc E' (rewrite_doc E D) = rewrite_doc E' D.
Proof.
  rewrite (rewrite_doc_map E' (rewrite_doc E D)), split_rewrite_doc.
  rewrite rewrite_doc_map. f_equal.
  rewrite <- list_fmap_compose. apply list_fmap_ext.
  intros i l _. apply rewrite_line_twice.
Qed.

Lemma toggleEmbeds_line D E i l :
  split_lines D !! i = Some l →
  split_lines (toggleEmbeds D E).1 !! i = Some (rewrite_line E l).
Proof.
  intros Hl. rewrite toggleEmbeds_eq. cbn [fst]. rewrite split_rewrite_doc.
  by rewrite list_lookup_fmap, Hl.
Qed.

(** ** The claims on the toggle command *)

(** C1, as the specification states it, fails: with the flag true the line
    of Beta is not stripped of its [!]. *)
Lemma C1_scenario_counterexample :
  toggleEmbeds scenario_doc true
  ≠ (nl (lit "- [ ] ![[Alpha]]") (nl (lit "- [x] [[Beta]]") (lit "- plain text")),
     false).
Proof. vm_compute. discriminate. Qed.

(** C1, amended: on the three-line document of the scenario and the flag
    true, the transform gives the line of Alpha its [!], keeps the [!] of
    the line of Beta, leaves the plain line alone, and the flag becomes
    false. *)
Theorem C1_scenario :
  toggleEmbeds scenario_doc true
  = (nl (lit "- [ ] ![[Alpha]]") (nl (lit "- [x] ![[Beta]]") (lit "- plain text")),
     false).
Proof. vm_compute. reflexivity. Qed.

(** C2, as the specification states it, fails: from a link without [!] and
    the flag false, the second toggle adds a [!] that the document never
    had. *)
Lemma C2_round_trip_counterexample :
  let D := lit "- [ ] [[A]]" in
  let r := toggleEmbeds D false in
  (toggleEmbeds r.1 r.2).1 ≠ D.
Proof. vm_compute. discriminate. Qed.

(** C2, amended: for every document [D] and flag [E], two toggles in a row
    give the flag [E] again, and the text that a single rewrite pass over
    [D] with the flag [negb E] gives. *)
Theorem C2_two_toggles (D : list N) (E : bool) :
  let r := toggleEmbeds D E in
  toggleEmbeds r.1 r.2 = (rewrite_doc (negb E) D, E).
Proof.
  cbv zeta. rewrite (toggleEmbeds_eq D E). cbn [fst snd].
  by rewrite toggleEmbeds_eq, rewrite_doc_twice, negb_involutive.
Qed.

(** C9: for a fixed flag the rewrite pass is idempotent: a second pass with
    the same flag changes nothing. *)
Theorem C9_rewrite_idempotent (D : list N) (E : bool) :
  rewrite_doc E (rewrite_doc E D) = rewrite_doc E D.
Proof. apply rewrite_doc_twice. Qed.

(** C3: a line of the document that matches the pattern comes out with the
    checked-state character and the link target that the capture groups
    hold, unchanged, and with a [!] before the link brackets exactly when
    the flag is true, whatever the line had there before. *)
Theorem C3_matching_line (D : list N) (E : bool) (i : nat) (l : list N) :
  split_lines D !! i = Some l →
  test match_regex l = true →
  ∃ pre checked exclamation link rest caps,
    search (terms replace_regex) l = Some (pre, caps, rest)
    ∧ group_args replace_regex caps = [[checked]; exclamation; link]
    ∧ (checked = c_x ∨ checked = c_space)
    ∧ (exclamation = [] ∨ exclamation = lit "!")
    ∧ l = pre ++ lit "- [" ++ [checked] ++ lit "] " ++ exclamation
            ++ lit "[[" ++ link ++ lit "]]" ++ rest
    ∧ split_lines (toggleEmbeds D E).1 !! i
      = Some (pre ++ lit "- [" ++ [checked] ++ lit "] "
                ++ (if E then lit "!" else lit "")
                ++ lit "[[" ++ link ++ lit "]]" ++ rest).
Proof.
  intros Hl Ht. rewrite (toggleEmbeds_line D E i l Hl).
  apply test_match_regex in Ht as (pre & c & bang & link & rest & H).
  rewrite (leftmost_rewrite E _ _ _ _ _ _ H).
  destruct H as (Hc & Hb & _ & -> & Hs).
  exists pre, c, bang, link, rest, (header_caps c bang ++ [link; [c_rbrack]; [c_rbrack]]).
  repeat split; try done.
  - by rewrite header_app.
  - rewrite header_app. by destruct E.
Qed.

Lemma C3_matching_line_witness :
  let D := nl (lit "- [x] ![[Beta]] tail") (lit "other") in
  split_lines D !! 0%nat = Some (lit "- [x] ![[Beta]] tail")
  ∧ test match_regex (lit "- [x] ![[Beta]] tail") = true
  ∧ ∃ pre checked exclamation link rest caps,
      search (terms replace_regex) (lit "- [x] ![[Beta]] tail")
      = Some (pre, caps, rest)
      ∧ group_args replace_regex caps = [[checked]; exclamation; link]
      ∧ (checked = c_x ∨ checked = c_space)
      ∧ (exclamation = [] ∨ exclamation = lit "!")
      ∧ lit "- [x] ![[Beta]] tail"
        = pre ++ lit "- [" ++ [checked] ++ lit "] " ++ exclamation
            ++ lit "[[" ++ link ++ lit "]]" ++ rest
      ∧ split_lines (toggleEmbeds D false).1 !! 0%nat
        = Some (pre ++ lit "- [" ++ [checked] ++ lit "] "
                  ++ (if false then lit "!" else lit "")
                  ++ lit "[[" ++ link ++ lit "]]" ++ rest).
Proof.
  cbv zeta. split; [reflexivity|]. split; [reflexivity|].
  apply (C3_matching_line (nl (lit "- [x] ![[Beta]] tail") (lit "other"))
           false 0 (lit "- [x] ![[Beta]] tail")); reflexivity.
Defined.

(** C5: a line of the document that does not match the pattern is, at the
    same position of the output document, the same line. *)
Theorem C5_other_lines_unchanged (D : list N) (E : bool) (i : nat) (l : list N) :
  split_lines D !! i = Some l →
  test match_regex l = false →
  split_lines (toggleEmbeds D E).1 !! i = Some l.
Proof.
  intros Hl Ht. rewrite (toggleEmbeds_line D E i l Hl).
  by rewrite rewrite_line_no_match.
Qed.

Lemma C5_other_lines_unchanged_witness :
  split_lines scenario_doc !! 2%nat = Some (lit "- plain text")
  ∧ test match_regex (lit "- plain text") = false
  ∧ split_lines (toggleEmbeds scenario_doc true).1 !! 2%nat
    = Some (lit "- plain text").
Proof.
  split; [reflexivity|]. split; [reflexivity|].
  apply (C5_other_lines_unchanged scenario_doc true 2 (lit "- plain text"));
    reflexivity.
Defined.

Lemma exec_Some_search r pre m :
  is_Some (exec r m) → is_Some (search r (pre ++ m)).
Proof.
  intros Hm. apply not_eq_None_Some. intros Hs.
  rewrite search_None in Hs. rewrite (Hs pre m eq_refl) in Hm.
  by apply is_Some_None in Hm.
Qed.

Lemma exec_checklist_not_dash x s :
  x ≠ c_dash → exec checklist_terms (x :: s) = None.
Proof.
  intros Hx. unfold checklist_terms. cbn [exec m_one accepts].
  by apply N.eqb_neq in Hx as ->.
Qed.

(** C4, as the specification states it, fails: the pattern does not match
    at position zero of an indented checklist line, and yet the line is
    rewritten. *)
Lemma C4_anchor_counterexample :
  let line := lit "  - [ ] [[A]]" in
  exec (terms match_regex) line = None
  ∧ (toggleEmbeds line true).1 = lit "  - [ ] ![[A]]"
  ∧ (toggleEmbeds line true).1 ≠ line.
Proof. vm_compute. repeat split; discriminate. Qed.

(** C4, amended: the pattern is not anchored.  Text in front of a place
    where the pattern matches does not keep the line from being rewritten;
    and when that text holds no dash, such as indentation, the line comes
    out as that text, kept as it is, followed by the rewritten remainder. *)
Theorem C4_unanchored (E : bool) (pre l : list N) :
  is_Some (exec (terms match_regex) l) →
  test match_regex (pre ++ l) = true
  ∧ (c_dash ∉ pre → rewrite_line E (pre ++ l) = pre ++ rewrite_line E l).
Proof.
  simpl terms. intros Hl. split.
  - unfold test. simpl terms.
    by destruct (exec_Some_search checklist_terms pre l Hl) as [[[??]?] ->].
  - intros Hpre. destruct Hl as [[caps rest] Hl].
    assert (Hs : search checklist_terms (pre ++ l) = Some (pre, caps, rest)).
    { apply search_intro; [done|]. intros p1 [|x p2] -> Hne; [done|].
      apply exec_checklist_not_dash. intros ->. apply Hpre.
      apply elem_of_app. right. by left. }
    assert (Hs0 : search checklist_terms l = Some ([], caps, rest)).
    { by apply (search_intro checklist_terms [] l); [|intros [|??] [|??]]. }
    unfold rewrite_line, test, replace. simpl terms. rewrite Hs, Hs0.
    reflexivity.
Qed.

Lemma C4_unanchored_witness :
  is_Some (exec (terms match_regex) (lit "- [ ] [[A]]"))
  ∧ test match_regex (lit "    " ++ lit "- [ ] [[A]]") = true
  ∧ (c_dash ∉ lit "    ")
  ∧ rewrite_line true (lit "    " ++ lit "- [ ] [[A]]")
    = lit "    " ++ rewrite_line true (lit "- [ ] [[A]]").
Proof.
  assert (Hm : is_Some (exec (terms match_regex) (lit "- [ ] [[A]]")))
    by (vm_compute; eauto).
  assert (Hd : c_dash ∉ lit "    ").
  { change (lit "    ") with [c_space; c_space; c_space; c_space].
    intros H. repeat (apply elem_of_cons in H as [H|H]; [discriminate H|]).
    by apply elem_of_nil in H. }
  destruct (C4_unanchored true (lit "    ") (lit "- [ ] [[A]]") Hm) as [Ht Hr].
  split; [exact Hm|]. split; [exact Ht|]. split; [exact Hd | exact (Hr Hd)].
Defined.

(** C8, as the specification states it, fails on the command id. *)
Lemma C8_command_id_counterexample :
  id toggle_command ≠ lit "toggle-embedding-notes".
Proof. vm_compute. discriminate. Qed.

(** C8, amended: the toggle command is registered with the id
    [toggle-embedding] and the display name [Toggle Embedding Notes]; when
    the host checks it, the callback changes nothing and answers true
    exactly when the type of the view is [markdown]. *)
Theorem C8_toggle_command :
  id toggle_command = lit "toggle-embedding"
  ∧ name toggle_command = lit "Toggle Embedding Notes"
  ∧ ∀ (p : Plugin) (editor : Editor) (view : View),
      ∃ b, editorCheckCallback toggle_command true p editor view
           = (Some b, p, editor)
        ∧ (b = true ↔ viewType view = lit "markdown").
Proof.
  repeat split; try reflexivity.
  intros p editor view. eexists. split; [reflexivity|].
  apply bool_decide_eq_true.
Qed.

(** ** File names *)

Lemma accepts_Cls cs c : accepts (Cls cs) c = true ↔ c ∈ cs.
Proof.
  simpl. rewrite existsb_exists. split.
  - intros (x & Hin & ->%N.eqb_eq). by apply list_elem_of_In.
  - intros Hin. exists c. split; [by apply list_elem_of_In | apply N.eqb_refl].
Qed.

(** A pattern of a single set matches somewhere in [s] exactly when a
    character of [s] is in the set. *)
Lemma test_one_set k g s : test (Regex [One k] g) s = existsb (accepts k) s.
Proof.
  unfold test. simpl terms. induction s as [|x s IH]; [done|].
  cbn [search exec m_one existsb]. destruct (accepts k x); [done|].
  cbn [orb]. rewrite <- IH. by destruct (search [One k] s) as [[[??]?]|].
Qed.

Lemma isValidFileName_false s :
  isValidFileName s = false ↔ ∃ c, c ∈ s ∧ c ∈ forbidden_chars.
Proof.
  unfold isValidFileName, filename_regex. rewrite test_one_set.
  rewrite negb_false_iff, existsb_exists. split.
  - intros (c & Hin & Hc). exists c. split; [by apply list_elem_of_In|].
    by apply accepts_Cls.
  - intros (c & Hin & Hc). exists c. split; [by apply list_elem_of_In|].
    by apply accepts_Cls.
Qed.

Lemma isValidFileName_true s :
  isValidFileName s = true ↔ ∀ c, c ∈ s → c ∉ forbidden_chars.
Proof.
  rewrite <- not_false_iff_true, isValidFileName_false. split.
  - intros Hno c Hin Hc. apply Hno. eauto.
  - intros Hall (c & Hin & Hc). by apply (Hall c).
Qed.

(** C6: [isValidFileName] answers false on the names that hold one of the
    ten forbidden characters (slash, backslash, question mark, percent,
    star, colon, bar, double quote, the angle brackets) and true on all
    others, the empty name included. *)
Theorem C6_isValidFileName :
  forbidden_chars = lit "/\?%*:|" ++ [34] ++ lit "<>"
  ∧ (∀ s, isValidFileName s = false ↔ ∃ c, c ∈ s ∧ c ∈ forbidden_chars)
  ∧ (∀ s, isValidFileName s = true ↔ ∀ c, c ∈ s → c ∉ forbidden_chars)
  ∧ isValidFileName (lit "note") = true
  ∧ isValidFileName (lit "a/b") = false
  ∧ isValidFileName (lit "a:b") = false
  ∧ isValidFileName (lit "") = true.
Proof.
  split; [reflexivity|]. split; [apply isValidFileName_false|].
  split; [apply isValidFileName_true|]. repeat split; reflexivity.
Qed.

(** ** The note creation flow *)

Lemma on_keydown_Enter m v :
  on_keydown Enter m v
  = if negb (isValidFileName (input_value m)) then
      (showError m (lit "Invalid file name."), v, true)
    else match getAbstractFileByPath v (candidate_path m) with
         | Some _ => (showError m (lit "File already exists."), v, true)
         | None =>
             (close m, vault_create v (candidate_path m) (selectedText m), true)
         end.
Proof. reflexivity. Qed.

(** C7: on Enter, a valid input whose path is free makes one call to
    [create], at the path built from the trimmed input and with the whole
    selected text, and closes the modal; an invalid input, or a path that is
    taken, leaves the vault as it was and shows the banner of that case. *)
Theorem C7_submit (m : Modal) (v : Vault) :
  let path := lit "Research/" ++ trim (input_value m) ++ lit ".md" in
  let r := on_keydown Enter m v in
  (isValidFileName (input_value m) = true → files v !! path = None →
     create_calls r.1.2 = create_calls v ++ [(path, selectedText m)]
     ∧ files r.1.2 = <[path := selectedText m]> (files v)
     ∧ is_open r.1.1 = false)
  ∧ (isValidFileName (input_value m) = false →
     r.1.2 = v ∧ is_open r.1.1 = is_open m
     ∧ error_text r.1.1 = lit "Invalid file name."
     ∧ error_display r.1.1 = lit "block")
  ∧ (isValidFileName (input_value m) = true → is_Some (files v !! path) →
     r.1.2 = v ∧ is_open r.1.1 = is_open m
     ∧ error_text r.1.1 = lit "File already exists."
     ∧ error_display r.1.1 = lit "block").
Proof.
  cbv zeta. rewrite on_keydown_Enter.
  unfold getAbstractFileByPath, candidate_path.
  split; [|split].
  - intros -> Hfree. cbn [negb]. rewrite Hfree. cbn [fst snd].
    unfold vault_create. cbn [create_calls files close is_open].
    by rewrite Hfree.
  - by intros ->.
  - intros -> [data Htaken]. cbn [negb]. by rewrite Htaken.
Qed.

Lemma C7_submit_witness :
  let m := sample_modal (lit " My Note ") in
  let r := on_keydown Enter m empty_vault in
  isValidFileName (input_value m) = true
  ∧ files empty_vault !! lit "Research/My Note.md" = None
  ∧ create_calls r.1.2
    = [(lit "Research/My Note.md", nl (lit "My Note") (lit "Body text"))]
  ∧ files r.1.2
    = <[lit "Research/My Note.md" := nl (lit "My Note") (lit "Body text")]> ∅
  ∧ is_open r.1.1 = false.
Proof.
  cbv zeta.
  assert (Hv : isValidFileName (input_value (sample_modal (lit " My Note "))) = true)
    by reflexivity.
  assert (Hf : files empty_vault
               !! (lit "Research/" ++ trim (input_value (sample_modal (lit " My Note ")))
                     ++ lit ".md") = None)
    by apply lookup_empty.
  split; [exact Hv|]. split; [apply lookup_empty|].
  exact (proj1 (C7_submit (sample_modal (lit " My Note ")) empty_vault) Hv Hf).
Defined.

(** ** Blank input *)

Lemma trimStart_blank s :
  Forall (λ c, is_white_space c = true) s → trimStart s = [].
Proof.
  induction 1 as [|c s Hc _ IH]; simpl; [done|]. by rewrite Hc.
Qed.

Lemma trim_blank s :
  Forall (λ c, is_white_space c = true) s → trim s = [].
Proof. intros Hs. unfold trim. by rewrite trimStart_blank. Qed.

Lemma forbidden_not_white_space c :
  c ∈ forbidden_chars → is_white_space c = false.
Proof.
  unfold forbidden_chars. intros Hc.
  repeat (apply elem_of_cons in Hc as [-> | Hc]; [reflexivity|]).
  by apply elem_of_nil in Hc.
Qed.

(** C10: validation reads the input as typed, the path is built from the
    trimmed input; so an input of white space only, the empty one included,
    is valid, its path is [Research/.md], and Enter creates that file with
    the selected text when the path is free. *)
Theorem C10_blank_input (m : Modal) (v : Vault) :
  Forall (λ c, is_white_space c = true) (input_value m) →
  isValidFileName (input_value m) = true
  ∧ candidate_path m = lit "Research/.md"
  ∧ (files v !! lit "Research/.md" = None →
     let r := on_keydown Enter m v in
     create_calls r.1.2
     = create_calls v ++ [(lit "Research/.md", selectedText m)]
     ∧ files r.1.2 !! lit "Research/.md" = Some (selectedText m)
     ∧ is_open r.1.1 = false).
Proof.
  intros Hblank.
  assert (Hvalid : isValidFileName (input_value m) = true).
  { apply isValidFileName_true. intros c Hin Hc.
    rewrite Forall_forall in Hblank. specialize (Hblank c Hin).
    by rewrite (forbidden_not_white_space c Hc) in Hblank. }
  assert (Hpath : candidate_path m = lit "Research/.md").
  { unfold candidate_path. by rewrite trim_blank. }
  split; [done|]. split; [done|]. intros Hfree. cbv zeta.
  rewrite on_keydown_Enter, Hvalid, Hpath. cbn [negb].
  unfold getAbstractFileByPath. rewrite Hfree. cbn [fst snd].
  unfold vault_create. cbn [create_calls files close is_open].
  rewrite Hfree. by rewrite lookup_insert_eq.
Qed.

Lemma C10_blank_input_witness :
  let m := sample_modal (lit "   ") in
  let r := on_keydown Enter m empty_vault in
  Forall (λ c, is_white_space c = true) (input_value m)
  ∧ isValidFileName (input_value m) = true
  ∧ candidate_path m = lit "Research/.md"
  ∧ files empty_vault !! lit "Research/.md" = None
  ∧ create_calls r.1.2 = [(lit "Research/.md", selectedText m)]
  ∧ files r.1.2 !! lit "Research/.md" = Some (selectedText m)
  ∧ is_open r.1.1 = false.
Proof.
  cbv zeta.
  assert (Hb : Forall (λ c, is_white_space c = true)
                 (input_value (sample_modal (lit "   ")))).
  { change (input_value (sample_modal (lit "   ")))
      with [c_space; c_space; c_space].
    repeat (apply Forall_cons; split; [reflexivity|]). apply Forall_nil_2. }
  destruct (C10_blank_input (sample_modal (lit "   ")) empty_vault Hb)
    as (Hv & Hp & Hc).
  split; [exact Hb|]. split; [exact Hv|]. split; [exact Hp|].
  split; [apply lookup_empty|]. exact (Hc (lookup_empty _)).
Defined.

(** * Further properties *)

(** ** The toggle command on whole documents *)

(** X1: the command keeps the number of lines of the document. *)
Theorem toggle_line_count (D : list N) (E : bool) :
  length (split_lines (toggleEmbeds D E).1) = length (split_lines D).
Proof.
  rewrite toggleEmbeds_eq. cbn [fst]. rewrite split_rewrite_doc.
  apply length_map.
Qed.

(** X2: on a document without a matching line the command leaves the text
    as it is, and still flips the flag. *)
Theorem toggle_no_match (D : list N) (E : bool) :
  Forall (λ l, test match_regex l = false) (split_lines D) →
  toggleEmbeds D E = (D, negb E).
Proof.
  intros Hno. rewrite toggleEmbeds_eq, rewrite_doc_map. f_equal.
  rewrite <- (join_split_lines D) at 2. f_equal.
  induction Hno as [|l ls Hl _ IH]; [done|].
  cbn [map]. by rewrite IH, rewrite_line_no_match.
Qed.

Lemma toggle_no_match_witness :
  let D := nl (lit "# Title") (nl (lit "") (lit "- [ ] plain [[A]")) in
  Forall (λ l, test match_regex l = false) (split_lines D)
  ∧ toggleEmbeds D true = (D, false).
Proof.
  cbv zeta.
  assert (H : Forall (λ l, test match_regex l = false)
                (split_lines (nl (lit "# Title") (nl (lit "") (lit "- [ ] plain [[A]"))))).
  { change (split_lines (nl (lit "# Title") (nl (lit "") (lit "- [ ] plain [[A]"))))
      with [lit "# Title"; lit ""; lit "- [ ] plain [[A]"].
    repeat (apply Forall_cons; split; [reflexivity|]). apply Forall_nil_2. }
  split; [exact H|]. exact (toggle_no_match _ true H).
Defined.

Lemma without_bangs_app a b :
  without_bangs (a ++ b) = without_bangs a ++ without_bangs b.
Proof. apply List.filter_app. Qed.

Lemma without_bangs_header c bang :
  ok_state c → ok_bang bang →
  without_bangs (header c bang) = without_bangs (header c []).
Proof. by intros [-> | ->] [-> | ->]. Qed.

Lemma without_bangs_rewrite_line E l :
  without_bangs (rewrite_line E l) = without_bangs l.
Proof.
  destruct (test match_regex l) eqn:Ht.
  - apply test_match_regex in Ht as (pre & c & bang & link & rest & H).
    rewrite (leftmost_rewrite E _ _ _ _ _ _ H).
    destruct H as (Hc & Hb & _ & -> & _).
    rewrite !without_bangs_app. f_equal. f_equal.
    rewrite (without_bangs_header c bang) by done.
    apply without_bangs_header; [done | apply ok_bang_of].
  - by rewrite rewrite_line_no_match.
Qed.

Lemma without_bangs_join ls :
  without_bangs (join_lines ls) = join_lines (map without_bangs ls).
Proof.
  induction ls as [|l ls IH]; [done|].
  destruct ls as [|l' ls]; [done|].
  rewrite join_lines_cons by done. cbn [map].
  rewrite (join_lines_cons (without_bangs l)) by done.
  rewrite without_bangs_app. f_equal.
  change (without_bangs (LF :: join_lines (l' :: ls)))
    with (LF :: without_bangs (join_lines (l' :: ls))).
  by rewrite IH.
Qed.

(** X3: the command adds and removes [!] characters and nothing else: with
    the [!] characters left out, the text before and the text after are the
    same. *)
Theorem toggle_changes_only_bangs (D : list N) (E : bool) :
  without_bangs (toggleEmbeds D E).1 = without_bangs D.
Proof.
  rewrite toggleEmbeds_eq. cbn [fst]. rewrite rewrite_doc_map.
  rewrite <- (join_split_lines D) at 2. rewrite !without_bangs_join. f_equal.
  rewrite <- list_fmap_compose. apply list_fmap_ext.
  intros i l _. apply without_bangs_rewrite_line.
Qed.

Lemma test_rewrite_line E l :
  test match_regex (rewrite_line E l) = test match_regex l.
Proof.
  destruct (test match_regex l) eqn:Ht.
  - apply test_match_regex in Ht as (pre & c & bang & link & rest & H).
    rewrite (leftmost_rewrite E _ _ _ _ _ _ H).
    apply (leftmost_test _ pre c (bang_of E) link rest).
    by apply (leftmost_header_change l pre c bang); [apply ok_bang_of|].
  - by rewrite rewrite_line_no_match.
Qed.

(** X4: the command turns no matching line into one that does not match,
    and no other line into a matching one: line by line, the output
    matches the pattern exactly where the input did. *)
Theorem toggle_keeps_matching (D : list N) (E : bool) :
  map (test match_regex) (split_lines (toggleEmbeds D E).1)
  = map (test match_regex) (split_lines D).
Proof.
  rewrite toggleEmbeds_eq. cbn [fst]. rewrite split_rewrite_doc.
  rewrite <- list_fmap_compose. apply list_fmap_ext.
  intros i l _. apply test_rewrite_line.
Qed.

Lemma toggle_times_S n D E :
  toggle_times (S n) D E
  = toggleEmbeds (toggle_times n D E).1 (toggle_times n D E).2.
Proof. reflexivity. Qed.

(** X5: however often the command is run, only the last run decides the
    text: after [n + 1] runs from the flag [E], the text is that of one
    pass over the first document with the flag of the last run, and the
    flag has been flipped [n + 1] times. *)
Theorem toggle_times_last (n : nat) (D : list N) (E : bool) :
  toggle_times (S n) D E
  = (rewrite_doc (Nat.iter n negb E) D, Nat.iter (S n) negb E).
Proof.
  induction n as [|n IH]; [done|].
  rewrite toggle_times_S, IH. cbn [fst snd].
  rewrite toggleEmbeds_eq. by rewrite rewrite_doc_twice.
Qed.

(** ** File names and paths *)

Lemma trimStart_split s :
  ∃ a, s = a ++ trimStart s ∧ Forall (λ c, is_white_space c = true) a.
Proof.
  induction s as [|c s (a & IH & Ha)]; simpl.
  - by exists [].
  - destruct (is_white_space c) eqn:Hc.
    + exists (c :: a). split; [by rewrite IH at 1 | by constructor].
    + by exists [].
Qed.

(** [trim] removes a run of white space at each end and nothing else. *)
Lemma trim_split s :
  ∃ a b, s = a ++ trim s ++ b
    ∧ Forall (λ c, is_white_space c = true) a
    ∧ Forall (λ c, is_white_space c = true) b.
Proof.
  destruct (trimStart_split s) as (a & Hs & Ha).
  destruct (trimStart_split (rev (trimStart s))) as (b & Hr & Hb).
  exists a, (rev b). repeat split; [|done|by apply List.Forall_rev].
  rewrite Hs at 1. f_equal. unfold trim, trimEnd.
  rewrite <- List.rev_app_distr, <- Hr. by rewrite List.rev_involutive.
Qed.

Lemma isValidFileName_blank s :
  Forall (λ c, is_white_space c = true) s → isValidFileName s = true.
Proof.
  intros Hblank. apply isValidFileName_true. intros c Hin Hc.
  rewrite Forall_forall in Hblank. specialize (Hblank c Hin).
  by rewrite (forbidden_not_white_space c Hc) in Hblank.
Qed.

Lemma valid_app (a b : list N) :
  isValidFileName (a ++ b) = isValidFileName a && isValidFileName b.
Proof.
  unfold isValidFileName, filename_regex. rewrite !test_one_set.
  by rewrite List.existsb_app, negb_orb.
Qed.

(** X6: a name put together from two parts is valid exactly when both
    parts are. *)
Theorem isValidFileName_app (a b : list N) :
  isValidFileName (a ++ b) = isValidFileName a && isValidFileName b.
Proof. apply valid_app. Qed.

Lemma valid_trim (s : list N) :
  isValidFileName (trim s) = isValidFileName s.
Proof.
  destruct (trim_split s) as (a & b & Hs & Ha & Hb).
  rewrite Hs at 2. rewrite !valid_app.
  rewrite (isValidFileName_blank a Ha), (isValidFileName_blank b Hb).
  by rewrite andb_true_r.
Qed.

(** X7: trimming does not change the verdict: the input as typed is valid
    exactly when the trimmed name that goes into the path is. *)
Theorem isValidFileName_trim (s : list N) :
  isValidFileName (trim s) = isValidFileName s.
Proof. apply valid_trim. Qed.

Lemma no_separator_filter s :
  isValidFileName s = true →
  List.filter (λ c, (c =? 47) || (c =? 92)) s = [].
Proof.
  rewrite isValidFileName_true. intros Hs.
  induction s as [|c s IH]; [done|]. cbn [List.filter].
  assert (Hc : (c =? 47) || (c =? 92) = false).
  { apply not_true_iff_false. rewrite orb_true_iff, !N.eqb_eq.
    intros Hc. apply (Hs c); [by left|].
    unfold forbidden_chars. destruct Hc as [-> | ->].
    - by left.
    - right. by left. }
  rewrite Hc. apply IH. intros c' Hin. apply Hs. by right.
Qed.

(** X8: a valid input cannot leave the folder: the path built from it has
    one separator only, the slash after [Research]. *)
Theorem candidate_path_one_separator (m : Modal) :
  isValidFileName (input_value m) = true →
  separators (candidate_path m) = 1%nat.
Proof.
  intros Hvalid. rewrite <- valid_trim in Hvalid.
  unfold separators, candidate_path. rewrite !List.filter_app.
  by rewrite (no_separator_filter _ Hvalid).
Qed.

Lemma candidate_path_one_separator_witness :
  isValidFileName (input_value (sample_modal (lit " notes v2 "))) = true
  ∧ separators (candidate_path (sample_modal (lit " notes v2 "))) = 1%nat.
Proof.
  assert (H : isValidFileName (input_value (sample_modal (lit " notes v2 "))) = true)
    by reflexivity.
  split; [exact H|]. exact (candidate_path_one_separator _ H).
Defined.

(** ** Opening the modal *)

Lemma hd_split_lines s :
  (LF ∉ hd [] (split_lines s))
  ∧ (s = hd [] (split_lines s)
     ∨ ∃ rest, s = hd [] (split_lines s) ++ LF :: rest).
Proof.
  induction s as [|c s [IHno IH]]; simpl.
  - split; [apply not_elem_of_nil | by left].
  - destruct (N.eqb_spec c LF) as [-> | Hc]; simpl.
    + split; [apply not_elem_of_nil | right; by exists s].
    + pose proof (split_lines_nonempty s) as Hne.
      destruct (split_lines s) as [|l ls]; [done|]. simpl in *.
      split; [by apply not_elem_of_cons|].
      destruct IH as [-> | (rest & ->)]; [by left | right; by exists rest].
Qed.

Lemma onOpen_facts (selected : list N) :
  let m := onOpen selected in
  selectedText m = selected ∧ is_open m = true
  ∧ (LF ∉ input_value m)
  ∧ (selected = input_value m ∨ ∃ rest, selected = input_value m ++ LF :: rest)
  ∧ (error_display m = lit "block" ↔ isValidFileName (input_value m) = false)
  ∧ (error_display m = lit "none" ↔ isValidFileName (input_value m) = true).
Proof.
  cbv zeta. unfold onOpen. cbn [input_value].
  destruct (hd_split_lines selected) as [Hno Hsplit].
  destruct (isValidFileName (hd [] (split_lines selected))) eqn:Hv;
    cbn [negb showError selectedText is_open input_value error_display];
    rewrite ?Hv; repeat split; done.
Qed.

(** X9: the modal opens on the whole selection, with the text before the
    first line feed of the selection in the input, and with the banner up
    exactly when that text is not a valid name. *)
Theorem onOpen_title (selected : list N) :
  let m := onOpen selected in
  selectedText m = selected ∧ is_open m = true
  ∧ (LF ∉ input_value m)
  ∧ (selected = input_value m ∨ ∃ rest, selected = input_value m ++ LF :: rest)
  ∧ (error_display m = lit "block" ↔ isValidFileName (input_value m) = false)
  ∧ (error_display m = lit "none" ↔ isValidFileName (input_value m) = true).
Proof. apply onOpen_facts. Qed.

(** ** Typing and submitting *)

Lemma on_input_cases m v :
  (isValidFileName (input_value m) = false
   ∧ on_input m v = showError m (lit "Invalid file name."))
  ∨ (isValidFileName (input_value m) = true
     ∧ is_Some (files v !! candidate_path m)
     ∧ on_input m v = showError m (lit "File already exists."))
  ∨ (isValidFileName (input_value m) = true
     ∧ files v !! candidate_path m = None
     ∧ on_input m v = clearError m).
Proof.
  unfold on_input, getAbstractFileByPath.
  destruct (isValidFileName (input_value m)); cbn [negb]; [|by left].
  right. destruct (files v !! candidate_path m) eqn:Hf; [left | right]; eauto.
Qed.

(** X10: the banner seen while typing tells what Enter will do.  When the
    [input] listener has cleared the banner, Enter makes the one call to
    [create] and closes the modal; when it has left a banner up, Enter
    creates nothing and shows that same banner. *)
Theorem input_banner_predicts_submit (m : Modal) (v : Vault) :
  let shown := on_input m v in
  let r := on_keydown Enter m v in
  (error_display shown = lit "none" →
     create_calls r.1.2
     = create_calls v ++ [(candidate_path m, selectedText m)]
     ∧ is_open r.1.1 = false)
  ∧ (error_display shown ≠ lit "none" →
     r.1.2 = v ∧ r.1.1 = shown ∧ error_display r.1.1 = lit "block").
Proof.
  cbv zeta. rewrite on_keydown_Enter. unfold getAbstractFileByPath.
  destruct (on_input_cases m v)
    as [[Hv ->] | [(Hv & [d Hf] & ->) | (Hv & Hf & ->)]];
    rewrite Hv, ?Hf; cbn [negb fst snd showError clearError error_display];
    split; intros H; done.
Qed.

Lemma input_banner_predicts_submit_witness :
  let m := sample_modal (lit "Bad/Name") in
  let r := on_keydown Enter m empty_vault in
  error_display (on_input m empty_vault) ≠ lit "none"
  ∧ r.1.2 = empty_vault
  ∧ r.1.1 = on_input m empty_vault
  ∧ error_display r.1.1 = lit "block".
Proof.
  cbv zeta.
  assert (H : error_display (on_input (sample_modal (lit "Bad/Name")) empty_vault)
              ≠ lit "none") by (vm_compute; discriminate).
  split; [exact H|].
  exact (proj2 (input_banner_predicts_submit
                  (sample_modal (lit "Bad/Name")) empty_vault) H).
Defined.

(** X11: whatever the key, the listener calls [create] at most once, and
    only on Enter, for a valid input, at a path where the vault has
    nothing; every file of the vault is still there afterwards, with its
    content; and [preventDefault] is called exactly on Enter. *)
Theorem keydown_create_guarded (key : list N) (m : Modal) (v : Vault) :
  let r := on_keydown key m v in
  (r.1.2 = v
   ∨ (key = Enter
      ∧ isValidFileName (input_value m) = true
      ∧ files v !! candidate_path m = None
      ∧ create_calls r.1.2
        = create_calls v ++ [(candidate_path m, selectedText m)]))
  ∧ (∀ path data, files v !! path = Some data →
                  files r.1.2 !! path = Some data)
  ∧ (r.2 = true ↔ key = Enter).
Proof.
  cbv zeta. unfold on_keydown, getAbstractFileByPath. fold Enter.
  destruct (bool_decide (key = Enter)) eqn:Hkey.
  - apply bool_decide_eq_true in Hkey as ->.
    destruct (isValidFileName (input_value m)); cbn [negb];
      [|by repeat split; [left|..]].
    destruct (files v !! candidate_path m) eqn:Hf;
      [by repeat split; [left|..]|].
    unfold candidate_path in *. cbn [fst snd].
    split; [right; by repeat split|]. split; [|done].
    intros path data Hpath. unfold vault_create. cbn [files]. rewrite Hf.
    rewrite lookup_insert_ne; [done|]. intros <-. by rewrite Hf in Hpath.
  - apply bool_decide_eq_false in Hkey. cbn [fst snd].
    by repeat split; [left|..].
Qed.

Lemma callback_facts (checking : bool) (editor : Editor) :
  let r := create_file_callback checking editor in
  (r.1.1 = true ↔ selection editor ≠ [])
  ∧ (checking = true → r.1.2 = [] ∧ r.2 = None)
  ∧ (checking = false → selection editor = [] →
     r.1.2 = [lit "No text selected."] ∧ r.2 = None)
  ∧ (checking = false → selection editor ≠ [] →
     r.1.2 = [] ∧ r.2 = Some (onOpen (selection editor))).
Proof.
  cbv zeta. unfold create_file_callback.
  destruct (selection editor) as [|c s]; destruct checking; cbn; by repeat split.
Qed.

(** X12: the [create-file] command is enabled exactly on a selection that
    is not empty.  Checking it shows nothing and opens nothing; running it
    on an empty selection shows the notice and opens nothing; running it
    otherwise opens the modal and shows no notice. *)
Theorem create_file_callback_cases (checking : bool) (editor : Editor) :
  let r := create_file_callback checking editor in
  (r.1.1 = true ↔ selection editor ≠ [])
  ∧ (checking = true → r.1.2 = [] ∧ r.2 = None)
  ∧ (checking = false → selection editor = [] →
     r.1.2 = [lit "No text selected."] ∧ r.2 = None)
  ∧ (checking = false → selection editor ≠ [] →
     r.1.2 = [] ∧ r.2 = Some (onOpen (selection editor))).
Proof. apply callback_facts. Qed.

(** X13: from the command to the file.  When running the command opens a
    modal and Enter is pressed on it as it is, with a valid first line and
    a free path, the one file created is named after the trimmed first
    line of the selection and holds the whole selection, which is not
    empty. *)
Theorem create_file_end_to_end (editor : Editor) (m : Modal) (v : Vault) :
  (create_file_callback false editor).2 = Some m →
  isValidFileName (input_value m) = true →
  files v !! candidate_path m = None →
  ∃ title,
    (selection editor = title ∨ ∃ rest, selection editor = title ++ LF :: rest)
    ∧ (LF ∉ title)
    ∧ selection editor ≠ []
    ∧ create_calls (on_keydown Enter m v).1.2
      = create_calls v
        ++ [(lit "Research/" ++ trim title ++ lit ".md", selection editor)].
Proof.
  intros Hopen Hvalid Hfree.
  assert (Hne : selection editor ≠ []).
  { intros Hs. unfold create_file_callback in Hopen. by rewrite Hs in Hopen. }
  destruct (callback_facts false editor) as (_ & _ & _ & Hrun).
  destruct (Hrun eq_refl Hne) as [_ Hm]. rewrite Hopen in Hm.
  injection Hm as ->.
  destruct (onOpen_facts (selection editor)) as (Hsel & _ & Hno & Hsplit & _).
  exists (input_value (onOpen (selection editor))).
  repeat split; [done..|].
  rewrite on_keydown_Enter, Hvalid. cbn [negb].
  unfold getAbstractFileByPath. rewrite Hfree. cbn [fst snd].
  unfold vault_create. cbn [create_calls]. by rewrite Hsel.
Qed.

Lemma create_file_end_to_end_witness :
  let editor := {| value := lit "text"; selection := nl (lit "My Note") (lit "Body text") |} in
  let m := onOpen (selection editor) in
  (create_file_callback false editor).2 = Some m
  ∧ isValidFileName (input_value m) = true
  ∧ files empty_vault !! candidate_path m = None
  ∧ ∃ title,
      (selection editor = title ∨ ∃ rest, selection editor = title ++ LF :: rest)
      ∧ (LF ∉ title)
      ∧ selection editor ≠ []
      ∧ create_calls (on_keydown Enter m empty_vault).1.2
        = create_calls empty_vault
          ++ [(lit "Research/" ++ trim title ++ lit ".md", selection editor)].
Proof.
  cbv zeta.
  split; [reflexivity|]. split; [reflexivity|]. split; [apply lookup_empty|].
  apply (create_file_end_to_end
           {| value := lit "text"; selection := nl (lit "My Note") (lit "Body text") |}
           (onOpen (nl (lit "My Note") (lit "Body text"))) empty_vault);
    [reflexivity | reflexivity | apply lookup_empty].
Defined.

(** ** Settings *)

Lemma loadSettings_unfold {V : Type} (JString : list N → V) data :
  loadSettings JString data
  = match data with
    | Some d => d ∪ DEFAULT_SETTINGS JString
    | None => DEFAULT_SETTINGS JString
    end.
Proof.
  unfold loadSettings, object_assign. cbn [foldl].
  rewrite (right_id_L ∅ (∪)). by destruct data.
Qed.

Lemma load_lookup {V : Type} (JString : list N → V)
    (data : option (gmap (list N) V)) (k : list N) :
  loadSettings JString data !! k
  = match data ≫= (λ d, d !! k) with
    | Some x => Some x
    | None => if decide (k = mySetting) then Some (JString (lit "default")) else None
    end.
Proof.
  rewrite loadSettings_unfold. unfold DEFAULT_SETTINGS.
  destruct data as [d|]; cbn [mbind option_bind].
  - rewrite lookup_union. destruct (d !! k) as [x|] eqn:Hd.
    + by destruct ({[mySetting := JString (lit "default")]} !! k).
    + rewrite (left_id_L None _). rewrite lookup_singleton.
      by destruct (decide (mySetting = k)), (decide (k = mySetting)).
  - rewrite lookup_singleton.
    by destruct (decide (mySetting = k)), (decide (k = mySetting)).
Qed.


Lemma save_load {V : Type} (JString : list N → V)
    (settings : gmap (list N) V) :
  is_Some (settings !! mySetting) →
  loadSettings JString (saveSettings settings) = settings.
Proof.
  intros [x Hx]. apply map_eq. intros k.
  rewrite load_lookup. unfold saveSettings. cbn [mbind option_bind].
  destruct (settings !! k) eqn:Hk; [done|].
  destruct (decide (k = mySetting)) as [-> | _]; [|done].
  by rewrite Hx in Hk.
Qed.

(** X15: settings that hold [mySetting] come back as they are when they are
    saved and loaded again. *)
Theorem save_load_settings {V : Type} (JString : list N → V)
    (settings : gmap (list N) V) :
  is_Some (settings !! mySetting) →
  loadSettings JString (saveSettings settings) = settings.
Proof. apply save_load. Qed.

Lemma save_load_settings_witness :
  let s : gmap (list N) (list N) :=
    <[lit "other" := lit "kept"]> {[ mySetting := lit "mine" ]} in
  is_Some (s !! mySetting)
  ∧ loadSettings (λ x, x) (saveSettings s) = s.
Proof.
  cbv zeta.
  assert (H : is_Some ((<[lit "other" := lit "kept"]> {[ mySetting := lit "mine" ]}
                          : gmap (list N) (list N)) !! mySetting)).
  { exists (lit "mine"). rewrite lookup_insert_ne by (vm_compute; discriminate).
    apply lookup_singleton_eq. }
  split; [exact H|]. exact (save_load_settings (λ x, x) _ H).
Defined.

(** X16: a value typed in the settings tab is what the next load finds:
    the settings stored by [onChange] load back as the settings in memory,
    with [mySetting] at the typed value and the other properties as they
    were. *)
Theorem onChange_persisted {V : Type} (JString : list N → V)
    (value : list N) (settings : gmap (list N) V) :
  let r := onChange JString value settings in
  loadSettings JString r.2 = r.1
  ∧ r.1 !! mySetting = Some (JString value)
  ∧ ∀ k, k ≠ mySetting → r.1 !! k = settings !! k.
Proof.
  cbv zeta. unfold onChange. cbn [fst snd]. repeat split.
  - apply save_load. rewrite lookup_insert_eq. eauto.
  - apply lookup_insert_eq.
  - intros k Hk. by apply lookup_insert_ne.
Qed.
